(** * gemini-rag-mcp: the GeminiClient orchestration layer and the upload tool

    A shallow embedding of [src/src/clients/gemini-client.ts] (the class
    [GeminiClient]) and of the MIME lookup of
    [src/src/tools/implementations/upload-file-tool.ts].

    Conventions:
    - an optional TypeScript field ([x?: T]) is an [option];
      [undefined]/[null] are [None], so [a ?? b] is [coalesce a b];
    - the remote backend is explicit state ([backend]); every network call
      of a method is a function of that state;
    - a thrown exception is the [Throw] branch of [result] (the [Failed]
      outcome of the poller); a
      JavaScript [new Error(m)] is the record [js_error] with [name = "Error"]
      and [message = m], as the ECMAScript [Error] constructor builds it. *)

From Stdlib Require Import String Ascii List ZArith Lia Bool Permutation Sorting.Sorted.
Import ListNotations.
Open Scope string_scope.
Open Scope list_scope.

(** ** JavaScript errors and the error monad *)

Record js_error := mk_js_error {
  err_name : string;
  err_message : string
}.

(** [new Error(message)]: the built-in [Error] constructor; its instances
    carry [name = "Error"]. *)
Definition new_Error (message : string) : js_error :=
  mk_js_error "Error" message.

Inductive result (A : Type) : Type :=
| Ok : A -> result A
| Throw : js_error -> result A.
Arguments Ok {A} _.
Arguments Throw {A} _.

(** [a ?? b]. *)
Definition coalesce {A} (a : option A) (b : A) : A :=
  match a with
  | Some x => x
  | None => b
  end.

(** ** Stores *)

(** [type FileSearchStore = { name: string; displayName?: string }] *)
Record FileSearchStore := mk_store {
  name : string;
  displayName : option string
}.

(** The store object as the SDK returns it: both fields optional. *)
Record sdk_store := mk_sdk_store {
  sdk_name : option string;
  sdk_displayName : option string
}.

(** The remote backend: the collection of stores visible to the API key,
    in listing order. *)
Definition backend := list sdk_store.

(** *** Pagination of the backend listing

    [fileSearchStores.list({config: {pageSize}})] answers page by page:
    the backend cuts its collection into pages of [pageSize] entries. *)
Fixpoint chunk_pages {A} (fuel pageSize : nat) (l : list A) : list (list A) :=
  match fuel with
  | O => []
  | S fuel' =>
      match l with
      | [] => []
      | _ :: _ => firstn pageSize l :: chunk_pages fuel' pageSize (skipn pageSize l)
      end
  end.

Definition backend_pages (pageSize : nat) (st : backend) : list (list sdk_store) :=
  chunk_pages (length st) pageSize st.

(** The async iterator of the SDK's [Pager] ([for await (... of pager)]):
    it yields the items of the page it holds; when they are exhausted and
    the backend reports a next page, it fetches that page and goes on; it
    stops only when there is no next page. *)
Fixpoint pager_iterate {A} (pages : list (list A)) : list A :=
  match pages with
  | [] => []
  | page :: rest => page ++ pager_iterate rest
  end.

(** [listStores(config?)], lines 99-113:
    [pageSize: config?.pageSize ?? 20], then every store the pager yields is
    pushed as [{ name: store.name ?? "", displayName: store.displayName }]. *)
Definition to_store (s : sdk_store) : FileSearchStore :=
  mk_store (coalesce (sdk_name s) "") (sdk_displayName s).

Definition listStores (pageSize : option nat) (st : backend) : list FileSearchStore :=
  let pager := backend_pages (coalesce pageSize 20) st in
  map to_store (pager_iterate pager).

(** JavaScript [===] on [string | undefined]. *)
Definition opt_string_eqb (a b : option string) : bool :=
  match a, b with
  | Some x, Some y => String.eqb x y
  | None, None => true
  | _, _ => false
  end.

(** [Array.prototype.find]. *)
Fixpoint find_first {A} (p : A -> bool) (l : list A) : option A :=
  match l with
  | [] => None
  | x :: xs => if p x then Some x else find_first p xs
  end.

(** [findStoreByDisplayName(displayName)], lines 118-124. *)
Definition findStoreByDisplayName (dn : string) (st : backend) : option FileSearchStore :=
  let stores := listStores None st in
  find_first (fun s => opt_string_eqb (displayName s) (Some dn)) stores.

(** [fileSearchStores.create({config: {displayName}})]: the backend adds a
    store with the requested display name and the identifier it assigns
    ([assigned]); the response is that new store. *)
Definition backend_create (dn : string) (assigned : option string) (st : backend)
  : sdk_store * backend :=
  let created := mk_sdk_store assigned (Some dn) in
  (created, st ++ [created]).

(** JavaScript truthiness of an optional string ([!x] is false only for a
    non-empty string). *)
Definition truthy_string (s : option string) : bool :=
  match s with
  | Some v => negb (String.eqb v "")
  | None => false
  end.

(** [createStore(displayName)], lines 129-144. *)
Definition createStore (dn : string) (assigned : option string) (st : backend)
  : result (FileSearchStore * backend) :=
  let '(created, st') := backend_create dn assigned st in
  if negb (truthy_string (sdk_name created)) then
    Throw (new_Error "Failed to create FileSearchStore")
  else
    Ok (mk_store (coalesce (sdk_name created) "")
                 (sdk_displayName created), st').

(** [ensureStore(displayName)], lines 149-164. [assigned] is the identifier
    the backend would assign if a store is created. *)
Definition ensureStore (dn : string) (assigned : option string) (st : backend)
  : result (FileSearchStore * backend) :=
  match findStoreByDisplayName dn st with
  | Some foundStore => Ok (foundStore, st)
  | None => createStore dn assigned st
  end.

(** ** Long-running operations *)

(** [error?: { message?: string; code?: number; details?: unknown }] *)
Record op_error := mk_op_error {
  error_message : option string;
  error_code : option Z
}.

(** The upload result payload read by [uploadBlob]:
    [response?: { documentName?: string }]. *)
Record op_response := mk_op_response {
  documentName : option string
}.

(** [MinimalOperation] together with the [response] field of the SDK's
    upload operation. *)
Record operation := mk_operation {
  done : option bool;
  op_name : option string;
  error : option op_error;
  response : option op_response
}.

(** What [this.ai.operations.get] may resolve to: its static type is
    [unknown]. A non-null object is an operation object; an array is an
    object with none of the operation's fields. *)
Inductive js_value :=
| JsUndefined
| JsNull
| JsBoolean (b : bool)
| JsNumber (z : Z)
| JsString (s : string)
| JsFunction
| JsArray (n : nat)
| JsObject (o : operation).

(** [typeof v]. *)
Definition typeof (v : js_value) : string :=
  match v with
  | JsUndefined => "undefined"
  | JsNull => "object"
  | JsBoolean _ => "boolean"
  | JsNumber _ => "number"
  | JsString _ => "string"
  | JsFunction => "function"
  | JsArray _ => "object"
  | JsObject _ => "object"
  end.

Definition is_null (v : js_value) : bool :=
  match v with JsNull => true | _ => false end.

(** [next as MinimalOperation], used once [next] is a non-null object:
    an array has no [done], [name], [error] or [response] property. *)
Definition as_operation (v : js_value) : operation :=
  match v with
  | JsObject o => o
  | _ => mk_operation None None None None
  end.

Section Poller.

(** [JSON.stringify] on the error payload. *)
Variable JSON_stringify : op_error -> string.

(** The observable effects of one polling round. *)
Inductive poll_event :=
| Sleep (ms : Z)           (** [await new Promise(r => setTimeout(r, pollMs))] *)
| FetchOperation.          (** [await this.ai.operations.get({operation})] *)

(** How a run ends. [Suspended] is a run still polling when the observed
    backend answers run out (the loop has no bound of its own). *)
Inductive poll_outcome :=
| Returned (o : operation)
| Failed (e : js_error)
| Suspended (o : operation).

(** [waitForOperationDone(operation, pollMs)], lines 51-80. [refreshes] are
    the successive answers of [operations.get]. *)
Fixpoint waitForOperationDone (pollMs : Z) (current : operation)
    (refreshes : list js_value) : poll_outcome * list poll_event :=
  match done current with
  | Some true =>
      match error current with
      | Some e =>
          (Failed (new_Error (coalesce (error_message e) (JSON_stringify e))), [])
      | None => (Returned current, [])
      end
  | _ =>
      match refreshes with
      | [] => (Suspended current, [])
      | next :: rest =>
          if negb (String.eqb (typeof next) "object") || is_null next then
            (Failed (new_Error "Invalid operation state received while polling"),
             [Sleep pollMs; FetchOperation])
          else
            let '(out, evs) := waitForOperationDone pollMs (as_operation next) rest in
            (out, Sleep pollMs :: FetchOperation :: evs)
      end
  end.

(** ** Uploads *)

(** [crypto.randomUUID()]: an RFC 4122 version-4 UUID built from 16 random
    bytes [rnd 0 .. rnd 15], printed as 32 lower-case hexadecimal digits in
    groups 8-4-4-4-12. *)
Definition hex_digit (z : Z) : ascii :=
  let n := Z.to_nat z in
  if Nat.ltb n 10 then ascii_of_nat (48 + n) else ascii_of_nat (87 + n).

Definition hex_byte (b : Z) : string :=
  String (hex_digit (Z.shiftr (Z.land b 255) 4)) (String (hex_digit (Z.land b 15)) EmptyString).

Definition uuid_byte (rnd : nat -> Z) (i : nat) : Z :=
  if Nat.eqb i 6 then Z.lor (Z.land (rnd 6%nat) 15) 64
  else if Nat.eqb i 8 then Z.lor (Z.land (rnd 8%nat) 63) 128
  else Z.land (rnd i) 255.

Fixpoint hex_bytes (rnd : nat -> Z) (from count : nat) : string :=
  match count with
  | O => ""
  | S c => hex_byte (uuid_byte rnd from) ++ hex_bytes rnd (S from) c
  end.

Definition randomUUID (rnd : nat -> Z) : string :=
  hex_bytes rnd 0 4 ++ "-" ++ hex_bytes rnd 4 2 ++ "-" ++ hex_bytes rnd 6 2 ++ "-"
  ++ hex_bytes rnd 8 2 ++ "-" ++ hex_bytes rnd 10 6.

(** [uploadBlob(args)], lines 169-206: [op] is the operation the upload
    call ([uploadToFileSearchStore]) answers, [refreshes] the later
    answers of [operations.get], [rnd] the random bytes of [randomUUID]. *)
Definition uploadBlob (op : operation) (refreshes : list js_value) (rnd : nat -> Z)
  : poll_outcome * option string :=
  let '(finished, _) := waitForOperationDone 5000 op refreshes in
  match finished with
  | Returned o =>
      let dn := match response o with
                | Some r => documentName r
                | None => None
                end in
      (finished, Some (coalesce dn (randomUUID rnd)))
  | _ => (finished, None)
  end.

End Poller.

(** ** Query responses *)

Record web_source := mk_web { uri : option string }.
Record grounding_chunk := mk_chunk { web : option web_source }.
Record grounding_metadata := mk_gm { groundingChunks : option (list grounding_chunk) }.
Record candidate := mk_candidate { groundingMetadata : option grounding_metadata }.
Record gen_response := mk_response { candidates : option (list candidate) }.

(** [extractCitations(response)], lines 327-344: the chunks of the first
    candidate's grounding metadata, each mapped to [chunk.web?.uri], the
    [undefined] ones filtered out. *)
Definition extractCitations (resp : gen_response) : list string :=
  let chunks :=
    match candidates resp with
    | Some (c :: _) =>
        match groundingMetadata c with
        | Some gm => groundingChunks gm
        | None => None
        end
    | _ => None
    end in
  match chunks with
  | None => []
  | Some cs =>
      let uris := map (fun ch => match web ch with Some w => uri w | None => None end) cs in
      flat_map (fun u => match u with Some s => [s] | None => [] end) uris
  end.

(** ** MIME type detection of the [upload_file] tool *)

Module UploadFileTool.

(** File paths are modelled as ASCII strings. *)

(** [s.split(sep)] for a one-character separator. *)
Fixpoint split (sep : ascii) (s : string) : list string :=
  match s with
  | EmptyString => [EmptyString]
  | String c rest =>
      let parts := split sep rest in
      if Ascii.eqb c sep then EmptyString :: parts
      else match parts with
           | p :: ps => String c p :: ps
           | [] => [String c EmptyString]
           end
  end.

(** [arr.pop()]: the last element, [undefined] for an empty array. *)
Fixpoint pop (l : list string) : option string :=
  match l with
  | [] => None
  | [x] => Some x
  | _ :: xs => pop xs
  end.

(** [s.toLowerCase()] on ASCII. *)
Definition lower_char (c : ascii) : ascii :=
  let n := nat_of_ascii c in
  if (Nat.leb 65 n && Nat.leb n 90)%bool then ascii_of_nat (n + 32) else c.

Fixpoint toLowerCase (s : string) : string :=
  match s with
  | EmptyString => EmptyString
  | String c rest => String (lower_char c) (toLowerCase rest)
  end.

(** The values a property read [mimeTypes[ext]] can produce. The table is
    an object literal, so a key it lacks is looked up on [Object.prototype]:
    its methods are functions and [__proto__] is [Object.prototype]
    itself. *)
Inductive prop_value :=
| PUndefined
| PString (s : string)
| PFunction (fname : string)
| PObjectPrototype.

(** The own properties of [mimeTypes], lines 90-104. *)
Definition mimeTypes : list (string * string) :=
  [("pdf", "application/pdf");
   ("txt", "text/plain");
   ("md", "text/markdown");
   ("html", "text/html");
   ("json", "application/json");
   ("xml", "application/xml");
   ("csv", "text/csv");
   ("doc", "application/msword");
   ("docx", "application/vnd.openxmlformats-officedocument.wordprocessingml.document");
   ("xls", "application/vnd.ms-excel");
   ("xlsx", "application/vnd.openxmlformats-officedocument.spreadsheetml.sheet");
   ("ppt", "application/vnd.ms-powerpoint");
   ("pptx", "application/vnd.openxmlformats-officedocument.presentationml.presentation")].

(** The methods of [Object.prototype]. *)
Definition object_prototype_methods : list string :=
  ["constructor"; "hasOwnProperty"; "isPrototypeOf"; "propertyIsEnumerable";
   "toLocaleString"; "toString"; "valueOf"; "__defineGetter__";
   "__defineSetter__"; "__lookupGetter__"; "__lookupSetter__"].

Fixpoint assoc (k : string) (l : list (string * string)) : option string :=
  match l with
  | [] => None
  | (k', v) :: rest => if String.eqb k k' then Some v else assoc k rest
  end.

(** [obj[key]] on the object literal [mimeTypes]. *)
Definition get_property (key : string) : prop_value :=
  match assoc key mimeTypes with
  | Some v => PString v
  | None =>
      if String.eqb key "__proto__" then PObjectPrototype
      else if existsb (String.eqb key) object_prototype_methods then PFunction key
      else PUndefined
  end.

(** [getMimeTypeFromExtension(ext)], lines 89-107:
    [mimeTypes[ext] ?? "application/octet-stream"]. *)
Definition getMimeTypeFromExtension (ext : string) : prop_value :=
  match get_property ext with
  | PUndefined => PString "application/octet-stream"
  | v => v
  end.

(** The MIME type [execute] passes to [uploadFile], lines 60-64:
    [let mimeType = args.mimeType; if (!mimeType) { const ext =
    args.filePath.split(".").pop()?.toLowerCase();
    mimeType = this.getMimeTypeFromExtension(ext ?? ""); }]. *)
Definition detected_mimeType (mimeType : option string) (filePath : string) : prop_value :=
  if negb (truthy_string mimeType) then
    let ext := option_map toLowerCase (pop (split "." filePath)) in
    getMimeTypeFromExtension (coalesce ext "")
  else PString (coalesce mimeType "").

End UploadFileTool.

(** ** Query execution *)

(** The full [generateContent] response: each candidate carries its
    [content] (read by [extractResponseText]) and its [groundingMetadata]
    (read by [extractCitations]). *)
Record content_part := mk_part { part_text : option string }.
Record content := mk_content { parts : option (list content_part) }.
Record full_candidate := mk_full_candidate {
  fc_content : option content;
  fc_groundingMetadata : option grounding_metadata
}.
Record generate_content_response := mk_gc_response {
  gc_candidates : option (list full_candidate)
}.

(** The same object seen through the cast of [extractCitations]. *)
Definition citation_view (r : generate_content_response) : gen_response :=
  mk_response (option_map (map (fun c => mk_candidate (fc_groundingMetadata c)))
                          (gc_candidates r)).

(** [parts.map((part) => part.text ?? "").join("")]. *)
Fixpoint join_texts (ps : list content_part) : string :=
  match ps with
  | [] => ""
  | p :: rest => coalesce (part_text p) "" ++ join_texts rest
  end.

(** [extractResponseText(response)], lines 311-322. *)
Definition extractResponseText (resp : generate_content_response) : string :=
  match gc_candidates resp with
  | Some (c :: _) =>
      match fc_content c with
      | Some ct =>
          match parts ct with
          | Some ps => join_texts ps
          | None => ""
          end
      | None => ""
      end
  | _ => ""
  end.

(** The request [queryStore] sends:
    [{ model, contents: query, config: { tools: [{ fileSearch:
       { fileSearchStoreNames: [storeName] } }] } }]. *)
Record generate_request := mk_generate_request {
  req_model : string;
  req_contents : string;
  req_fileSearchStoreNames : list string
}.

(** [type GenerateContentResult = { text: string; citations: string[] }] *)
Record GenerateContentResult := mk_gc_result {
  result_text : string;
  citations : list string
}.

(** [queryStore(args)], lines 280-306; [respond] is the backend's
    [generateContent]. *)
Definition queryStore (storeName query : string) (model : option string)
    (respond : generate_request -> generate_content_response)
  : generate_request * GenerateContentResult :=
  let m := coalesce model "gemini-2.5-pro" in
  let req := mk_generate_request m query [storeName] in
  let response := respond req in
  (req, mk_gc_result (extractResponseText response)
                     (extractCitations (citation_view response))).

(** ** The MCP tools *)

(** [type MCPToolResponse<T> = { success: boolean; message: string; data: T }] *)
Record MCPToolResponse (T : Type) := mk_tool_response {
  success : bool;
  message : string;
  data : T
}.
Arguments mk_tool_response {T} _ _ _.
Arguments success {T} _.
Arguments message {T} _.
Arguments data {T} _.

(** The [ToolContext] fields the tools read. *)
Record ToolContext := mk_context {
  storeDisplayName : string;
  defaultModel : string
}.

(** [EnsureStoreResult] *)
Record EnsureStoreResult := mk_ensure_result {
  er_storeName : string;
  er_displayName : option string;
  created : bool
}.

(** [EnsureStoreTool.execute], query-store-tool.ts lines 87-117: look the
    store up, create it when absent. *)
Definition EnsureStoreTool_execute (ctx : ToolContext) (assigned : option string)
    (st : backend) : result (MCPToolResponse EnsureStoreResult * backend) :=
  match findStoreByDisplayName (storeDisplayName ctx) st with
  | Some existingStore =>
      Ok (mk_tool_response true
            ("FileSearchStore already exists: " ++ name existingStore)
            (mk_ensure_result (name existingStore) (displayName existingStore) false), st)
  | None =>
      match createStore (storeDisplayName ctx) assigned st with
      | Throw e => Throw e
      | Ok (newStore, st') =>
          Ok (mk_tool_response true
                ("Created new FileSearchStore: " ++ name newStore)
                (mk_ensure_result (name newStore) (displayName newStore) true), st')
      end
  end.

(** [ListStoresResult] *)
Record ListStoresResult := mk_list_result {
  stores : list FileSearchStore;
  total : nat
}.

(** [ListStoresTool.execute], unnamed/part_000 (without its message, which
    prints the count). *)
Definition ListStoresTool_execute (pageSize : option nat) (st : backend) : ListStoresResult :=
  let ss := listStores (Some (coalesce pageSize 20)) st in
  mk_list_result ss (length ss).

(** [QueryStoreResult] *)
Record QueryStoreResult := mk_query_result {
  qr_text : string;
  qr_citations : list string;
  qr_query : string;
  qr_model : string;
  qr_storeName : string
}.

(** [QueryStoreTool.execute], query-store-tool.ts lines 35-59 (without its
    message, which prints the citation count): the store is ensured, then
    queried with the configured default model. Also returns the request
    sent. *)
Definition QueryStoreTool_execute (ctx : ToolContext) (query : string)
    (assigned : option string) (respond : generate_request -> generate_content_response)
    (st : backend) : result (generate_request * QueryStoreResult * backend) :=
  match ensureStore (storeDisplayName ctx) assigned st with
  | Throw e => Throw e
  | Ok (store, st') =>
      let '(req, res) := queryStore (name store) query (Some (defaultModel ctx)) respond in
      Ok (req, mk_query_result (result_text res) (citations res) query
                               (defaultModel ctx) (name store), st')
  end.

(** ** Custom metadata *)

(** [type MetadataInput = Record<string, string | number>]: the object's own
    properties in creation order, keys distinct. Numbers are passed through
    untouched by the code; they are modelled as integers. *)
Inductive meta_value :=
| MString (s : string)
| MNumber (n : Z).

Definition MetadataInput := list (string * meta_value).

(** [type CustomMetadata = { key: string; stringValue?: string;
    numericValue?: number }] *)
Record CustomMetadata := mk_custom_metadata {
  key : string;
  stringValue : option string;
  numericValue : option Z
}.

(** The decimal value of a string of digits ([None] when a character is
    not a digit). *)
Fixpoint digits_value (s : string) (acc : N) : option N :=
  match s with
  | EmptyString => Some acc
  | String c rest =>
      let d := nat_of_ascii c in
      if (Nat.leb 48 d && Nat.leb d 57)%bool
      then digits_value rest (acc * 10 + N.of_nat (d - 48))%N
      else None
  end.

(** An array index: the canonical decimal form of an integer below
    [2^32 - 1] (no sign, no leading zero). *)
Definition array_index (k : string) : option N :=
  match k with
  | EmptyString => None
  | String "0" EmptyString => Some 0%N
  | String "0" _ => None
  | _ =>
      match digits_value k 0 with
      | Some n => if (n <? 4294967295)%N then Some n else None
      | None => None
      end
  end.

Fixpoint insert_by_index {A} (x : N * A) (l : list (N * A)) : list (N * A) :=
  match l with
  | [] => [x]
  | y :: rest => if (fst x <? fst y)%N then x :: l else y :: insert_by_index x rest
  end.

Fixpoint index_entries {A} (l : list (string * A)) : list (N * (string * A)) :=
  match l with
  | [] => []
  | (k, v) :: rest =>
      match array_index k with
      | Some n => insert_by_index (n, (k, v)) (index_entries rest)
      | None => index_entries rest
      end
  end.

(** [Object.entries(o)]: the own property order of ECMAScript
    ([OrdinaryOwnPropertyKeys]): array-index keys in ascending numeric
    order, then the other string keys in creation order. *)
Definition Object_entries {A} (l : list (string * A)) : list (string * A) :=
  map snd (index_entries l)
  ++ filter (fun kv => match array_index (fst kv) with Some _ => false | None => true end) l.

(** The mapping of one entry, [convertMetadataInput] lines 13-18. *)
Definition convert_entry (kv : string * meta_value) : CustomMetadata :=
  let '(k, v) := kv in
  match v with
  | MString s => mk_custom_metadata k (Some s) None
  | MNumber n => mk_custom_metadata k None (Some n)
  end.

(** [convertMetadataInput(input)], src/utils/metadata.ts lines 10-19. *)
Definition convertMetadataInput (input : MetadataInput) : list CustomMetadata :=
  map convert_entry (Object_entries input).

(** ** Upload requests *)

(** What [uploadBlob] submits to [uploadToFileSearchStore]:
    [{ fileSearchStoreName, file: blob, config: { mimeType, displayName,
       customMetadata? } }]; [up_blob_type] is the [type] of the [Blob],
    [up_payload] its bytes (UTF-8 of an ASCII string is that string). *)
Record upload_request := mk_upload_request {
  up_fileSearchStoreName : string;
  up_payload : string;
  up_blob_type : string;
  up_mimeType : string;
  up_displayName : string;
  up_customMetadata : option (list CustomMetadata)
}.

(** How an awaited upload ends. *)
Inductive upload_run :=
| Uploaded (documentName : string)
| UploadFailed (e : js_error)
| StillPolling.

Definition upload_outcome (r : poll_outcome * option string) : upload_run :=
  match r with
  | (Returned _, Some dn) => Uploaded dn
  | (Failed e, _) => UploadFailed e
  | _ => StillPolling
  end.

(** [uploadContent(args)], lines 247-275, with the upload of [uploadBlob]:
    [submit] is the backend's answer to the upload request. *)
Definition uploadContent (J : op_error -> string) (storeName content displayName : string)
    (metadata : option (list CustomMetadata)) (submit : upload_request -> operation)
    (refreshes : list js_value) (rnd : nat -> Z) : upload_request * upload_run :=
  let req := mk_upload_request storeName content "text/plain" "text/plain" displayName metadata in
  (req, upload_outcome (uploadBlob J (submit req) refreshes rnd)).

(** [UploadContentResult] *)
Record UploadContentResult := mk_upload_content_result {
  uc_documentName : string;
  uc_displayName : string;
  uc_storeName : string;
  contentLength : nat
}.

(** How a tool call that awaits an upload ends. *)
Inductive tool_run (T : Type) :=
| ToolDone (r : T)
| ToolThrew (e : js_error)
| ToolWaiting.
Arguments ToolDone {T} _.
Arguments ToolThrew {T} _.
Arguments ToolWaiting {T}.

(** [UploadContentTool.execute], upload-content-tool.ts lines 51-87. The
    request sent is returned beside the outcome; [content.length] counts
    characters (one per ASCII character). *)
Definition UploadContentTool_execute (J : op_error -> string) (ctx : ToolContext)
    (content displayName : string) (metadata : option MetadataInput)
    (assigned : option string) (submit : upload_request -> operation)
    (refreshes : list js_value) (rnd : nat -> Z) (st : backend)
  : option upload_request * tool_run (MCPToolResponse UploadContentResult) * backend :=
  match ensureStore (storeDisplayName ctx) assigned st with
  | Throw e => (None, ToolThrew e, st)
  | Ok (store, st') =>
      let md := option_map convertMetadataInput metadata in
      let '(req, out) := uploadContent J (name store) content displayName md submit refreshes rnd in
      (Some req,
       match out with
       | Uploaded dn =>
           ToolDone (mk_tool_response true ("Content uploaded successfully: " ++ displayName)
                       (mk_upload_content_result dn displayName (name store) (String.length content)))
       | UploadFailed e => ToolThrew e
       | StillPolling => ToolWaiting
       end, st')
  end.

(** [basename(p)] of [node:path] (POSIX): the last segment of [p] between
    ["/"] separators, trailing separators ignored; [""] when there is none. *)
Fixpoint last_nonempty (l : list string) : string :=
  match l with
  | [] => ""
  | x :: rest =>
      match last_nonempty rest with
      | EmptyString => x
      | y => y
      end
  end.

Definition basename (p : string) : string := last_nonempty (UploadFileTool.split "/" p).

(** The display name [UploadFileTool.execute] uses, line 57:
    [args.displayName ?? basename(args.filePath)]. *)
Definition upload_file_displayName (displayName : option string) (filePath : string) : string :=
  coalesce displayName (basename filePath).

(** ** Configuration, src/config/index.ts *)

(** [ServerConfig] (src/unnamed/part_001). Numbers are modelled as
    integers. *)
Record server_section := mk_server_section { server_name : string; version : string }.
Record mcp_section := mk_mcp_section { maxResponseSize : Z; defaultPageSize : Z }.
Record logging_section := mk_logging_section { level : string; enableDebugConsole : bool }.
Record gemini_section := mk_gemini_section {
  apiKey : string;
  gemini_storeDisplayName : string;
  model : string
}.
Record ServerConfig := mk_config {
  server : server_section;
  mcp : mcp_section;
  logging : logging_section;
  gemini : gemini_section
}.

(** [process.env]: the environment variables that are set. *)
Definition environment := string -> option string.

(** [DEFAULT_CONFIG], lines 10-28, read from the environment. *)
Definition DEFAULT_CONFIG (env : environment) : ServerConfig :=
  mk_config
    (mk_server_section "gemini-rag-mcp" "1.0.0")
    (mk_mcp_section 100000 50)
    (mk_logging_section (coalesce (env "LOG_LEVEL") "info")
                        (opt_string_eqb (env "DEBUG") (Some "true")))
    (mk_gemini_section (coalesce (env "GOOGLE_API_KEY") "")
                       (coalesce (env "STORE_DISPLAY_NAME") "default")
                       (coalesce (env "GEMINI_MODEL") "gemini-2.5-pro")).

(** [loadConfig()], lines 69-73: a shallow copy of [DEFAULT_CONFIG]. *)
Definition loadConfig (env : environment) : ServerConfig := DEFAULT_CONFIG env.

(** [validateConfig(config)], lines 33-64: every check throws inside the
    [try], and the [catch] answers [false]. *)
Definition validateConfig (config : ServerConfig) : bool :=
  if (maxResponseSize (mcp config) <=? 0)%Z then false
  else if (defaultPageSize (mcp config) <=? 0)%Z then false
  else if negb (existsb (String.eqb (level (logging config)))
                        ["error"; "warn"; "info"; "debug"]) then false
  else if negb (truthy_string (Some (apiKey (gemini config)))) then false
  else if negb (truthy_string (Some (gemini_storeDisplayName (gemini config)))) then false
  else true.

(** ** The tool registry, src/server/tool-registry.ts *)

Inductive Tool :=
| EnsureStoreTool
| ListStoresTool
| UploadFileTool'
| QueryStoreTool.

(** The [name] field of each tool class. *)
Definition tool_name (t : Tool) : string :=
  match t with
  | EnsureStoreTool => "ensure_store"
  | ListStoresTool => "list_stores"
  | UploadFileTool' => "upload_file"
  | QueryStoreTool => "query_store"
  end.

(** [Map.prototype.set]: replaces the value of a present key in place,
    appends a new key. *)
Fixpoint map_set {V} (k : string) (v : V) (m : list (string * V)) : list (string * V) :=
  match m with
  | [] => [(k, v)]
  | (k', v') :: rest => if String.eqb k k' then (k, v) :: rest else (k', v') :: map_set k v rest
  end.

Fixpoint map_get {V} (k : string) (m : list (string * V)) : option V :=
  match m with
  | [] => None
  | (k', v) :: rest => if String.eqb k k' then Some v else map_get k rest
  end.

(** [initialize(context)], lines 26-40: each tool of the list is set
    under its name, in order. *)
Definition initialize (toolInstances : list (string * Tool)) : list (string * Tool) :=
  fold_left (fun m t => map_set (tool_name t) t m)
    [EnsureStoreTool; ListStoresTool; UploadFileTool'; QueryStoreTool] toolInstances.

(** [getToolByName(name)], lines 42-44. *)
Definition getToolByName (toolInstances : list (string * Tool)) (n : string) : option Tool :=
  map_get n toolInstances.

(** * Properties *)

Module UploadFileToolFacts.
Import UploadFileTool.

Lemma pop_cons_cons (x y : string) (l : list string) :
  pop (x :: y :: l) = pop (y :: l).
Proof. reflexivity. Qed.

Lemma split_not_nil sep s : split sep s <> [].
Proof.
  destruct s as [|c r]; simpl; [discriminate|].
  destruct (Ascii.eqb c sep); [discriminate|].
  destruct (split sep r); discriminate.
Qed.

(** Whatever precedes a suffix that already contains the separator, the
    last piece of the split is the suffix's last piece. *)
Lemma pop_split_app sep a b :
  2 <= length (split sep b) ->
  pop (split sep (a ++ b)) = pop (split sep b) /\ 2 <= length (split sep (a ++ b)).
Proof.
  intros Hb. induction a as [|c a IH]; simpl; [auto|].
  destruct IH as [Hpop Hlen].
  destruct (Ascii.eqb c sep).
  - split; [|simpl; lia].
    destruct (split sep (a ++ b)) as [|p ps] eqn:E; [simpl in Hlen; lia|].
    rewrite <- Hpop. reflexivity.
  - destruct (split sep (a ++ b)) as [|p [|q qs]] eqn:E; simpl in Hlen; try lia.
    split; [|simpl; lia]. rewrite <- Hpop. reflexivity.
Qed.

Lemma pop_split_ext sep stem ext :
  2 <= length (split sep (String sep ext)) ->
  pop (split sep (stem ++ String sep ext)) = pop (split sep (String sep ext)).
Proof. intros H. apply (pop_split_app sep stem _ H). Qed.

(** C9 (code_bug). With no explicit MIME type, a [.md] extension yields
    [text/markdown] and [.xyz] yields [application/octet-stream], whatever
    precedes the extension; but an extension that is not in the table and
    names a property of [Object.prototype], such as [.constructor], does not
    yield [application/octet-stream]: the lookup answers the inherited
    [Object] constructor function. *)
Theorem mime_from_extension (stem : string) :
  detected_mimeType None (stem ++ ".md") = PString "text/markdown" /\
  detected_mimeType None (stem ++ ".xyz") = PString "application/octet-stream" /\
  detected_mimeType None "notes.constructor" = PFunction "constructor".
Proof.
  unfold detected_mimeType; simpl truthy_string; cbv iota beta.
  refine (conj _ (conj _ _)).
  - rewrite (pop_split_ext "." stem "md") by (simpl; lia). reflexivity.
  - rewrite (pop_split_ext "." stem "xyz") by (simpl; lia). reflexivity.
  - vm_compute. reflexivity.
Qed.

End UploadFileToolFacts.

Module StoreFacts.

Definition matches (d : string) (s : FileSearchStore) : bool :=
  opt_string_eqb (displayName s) (Some d).

Lemma matches_to_store d x :
  matches d (to_store x) = true <-> sdk_displayName x = Some d.
Proof.
  unfold matches, to_store; simpl.
  destruct (sdk_displayName x) as [y|]; simpl; split; intro H; try discriminate.
  - apply String.eqb_eq in H. now subst.
  - injection H as ->. apply String.eqb_refl.
Qed.

Lemma pager_iterate_chunk_pages {A} (fuel n : nat) (l : list A) :
  0 < n -> length l <= fuel -> pager_iterate (chunk_pages fuel n l) = l.
Proof.
  revert l. induction fuel as [|fuel IH]; intros l Hn Hl.
  - destruct l; simpl in *; [reflexivity | lia].
  - destruct l as [|x xs]; [reflexivity|].
    cbn [chunk_pages pager_iterate].
    rewrite IH; [apply firstn_skipn | exact Hn |].
    rewrite length_skipn. simpl in *. destruct n; lia.
Qed.

(** The listing is the whole collection, page after page. *)
Lemma listStores_all (p : option nat) (st : backend) :
  0 < coalesce p 20 -> listStores p st = map to_store st.
Proof.
  intros Hp. unfold listStores, backend_pages.
  rewrite pager_iterate_chunk_pages; auto.
Qed.

Lemma find_first_app_none {A} (p : A -> bool) (l1 l2 : list A) :
  (forall y, In y l1 -> p y = false) -> find_first p (l1 ++ l2) = find_first p l2.
Proof.
  induction l1 as [|y l1 IH]; intros H; simpl; [reflexivity|].
  rewrite (H y (or_introl eq_refl)). apply IH. intros z Hz. apply H. now right.
Qed.

Lemma find_first_none {A} (p : A -> bool) (l : list A) :
  find_first p l = None -> forall y, In y l -> p y = false.
Proof.
  induction l as [|x l IH]; simpl; intros H y Hy; [contradiction|].
  destruct (p x) eqn:Ex; [discriminate|].
  destruct Hy as [<-|Hy]; auto.
Qed.

Lemma findStoreByDisplayName_first d pre x post :
  (forall y, In y pre -> sdk_displayName y <> Some d) ->
  sdk_displayName x = Some d ->
  findStoreByDisplayName d (pre ++ x :: post) = Some (to_store x).
Proof.
  intros Hpre Hx. unfold findStoreByDisplayName.
  rewrite listStores_all by (simpl; lia). rewrite map_app.
  rewrite find_first_app_none.
  - simpl. rewrite Hx. simpl. now rewrite String.eqb_refl.
  - intros y Hy. apply in_map_iff in Hy as [z [<- Hz]].
    destruct (opt_string_eqb (displayName (to_store z)) (Some d)) eqn:E; [|reflexivity].
    exfalso. apply (Hpre z Hz). now apply matches_to_store.
Qed.

Lemma findStoreByDisplayName_none d st :
  (forall y, In y st -> sdk_displayName y <> Some d) ->
  findStoreByDisplayName d st = None.
Proof.
  intros H. unfold findStoreByDisplayName.
  rewrite listStores_all by (simpl; lia).
  induction st as [|x st IH]; simpl; [reflexivity|].
  destruct (opt_string_eqb (sdk_displayName x) (Some d)) eqn:E.
  - exfalso. apply (H x (or_introl eq_refl)). now apply (matches_to_store d x).
  - apply IH. intros y Hy. apply H. now right.
Qed.

Lemma findStoreByDisplayName_none_inv d st :
  findStoreByDisplayName d st = None ->
  forall y, In y st -> sdk_displayName y <> Some d.
Proof.
  unfold findStoreByDisplayName. rewrite listStores_all by (simpl; lia).
  intros H y Hy Hd.
  pose proof (find_first_none _ _ H (to_store y) (in_map _ _ _ Hy)) as Hf.
  apply matches_to_store in Hd. unfold matches in Hd. congruence.
Qed.

Lemma createStore_ok d n st :
  n <> "" ->
  createStore d (Some n) st = Ok (mk_store n (Some d), st ++ [mk_sdk_store (Some n) (Some d)]).
Proof.
  intros Hn. unfold createStore, backend_create, truthy_string; simpl.
  destruct (String.eqb n "") eqn:E; [apply String.eqb_eq in E; contradiction|].
  reflexivity.
Qed.

End StoreFacts.

Module StoreClaims.
Import StoreFacts.

(** C1. [ensureStore(d)] lists the whole collection and returns, unchanged
    as listed, the first store whose [displayName] is exactly [d]; when no
    store has that display name it creates one with display name [d] and
    returns the handle the backend answers (the backend's new collection is
    the old one plus that store). *)
Theorem ensureStore_find_or_create (d : string) (a : option string) :
  (forall pre x post,
     (forall y, In y pre -> sdk_displayName y <> Some d) ->
     sdk_displayName x = Some d ->
     ensureStore d a (pre ++ x :: post) = Ok (to_store x, pre ++ x :: post)) /\
  (forall st n,
     (forall y, In y st -> sdk_displayName y <> Some d) ->
     a = Some n -> n <> "" ->
     ensureStore d a st = Ok (mk_store n (Some d), st ++ [mk_sdk_store (Some n) (Some d)])).
Proof.
  split.
  - intros pre x post Hpre Hx. unfold ensureStore.
    now rewrite findStoreByDisplayName_first.
  - intros st n Hst -> Hn. unfold ensureStore.
    rewrite findStoreByDisplayName_none by exact Hst.
    now apply createStore_ok.
Qed.

Definition store_a : sdk_store := mk_sdk_store (Some "fileSearchStores/a") (Some "docs").
Definition store_b : sdk_store := mk_sdk_store (Some "fileSearchStores/b") (Some "notes").
Definition store_c : sdk_store := mk_sdk_store (Some "fileSearchStores/c") (Some "docs").

Lemma ensureStore_find_or_create_witness :
  ensureStore "docs" None [store_b; store_a; store_c]
    = Ok (to_store store_a, [store_b; store_a; store_c]) /\
  ensureStore "docs" (Some "fileSearchStores/new") [store_b]
    = Ok (mk_store "fileSearchStores/new" (Some "docs"),
          [store_b; mk_sdk_store (Some "fileSearchStores/new") (Some "docs")]).
Proof.
  split.
  - apply (proj1 (ensureStore_find_or_create "docs" None) [store_b] store_a [store_c]).
    + intros y [<-|[]]. discriminate.
    + reflexivity.
  - apply (proj2 (ensureStore_find_or_create "docs" (Some "fileSearchStores/new"))).
    + intros y [<-|[]]. discriminate.
    + reflexivity.
    + discriminate.
Defined.

(** Twenty-one stores, more than one default page. *)
Definition many_stores : backend :=
  map (fun i => mk_sdk_store (Some (String (ascii_of_nat (65 + i)) "")) None) (seq 0 21).

(** C3, as stated, fails: [listStores] drives the pager through every page,
    so it returns more than one page (more than [pageSize] stores). *)
Lemma listStores_first_page_only_counterexample :
  length (listStores None many_stores) = 21 /\
  length (listStores (Some 1%nat) [store_a; store_b]) = 2.
Proof. split; vm_compute; reflexivity. Qed.

(** C3, amended: [listStores(p)] returns every store of the collection, in
    listing order, whatever the page size ([p], default 20) used for each
    request; each SDK store becomes [{name: name ?? "", displayName}]. *)
Theorem listStores_auto_paginates (p : option nat) (st : backend) :
  0 < coalesce p 20 -> listStores p st = map to_store st.
Proof. apply listStores_all. Qed.

Lemma listStores_auto_paginates_witness :
  0 < coalesce (Some 1%nat) 20 /\
  listStores (Some 1%nat) [store_a; store_b] = map to_store [store_a; store_b].
Proof. split; [simpl; lia | apply listStores_auto_paginates; simpl; lia]. Defined.

(** C4. Two successive [ensureStore(d)] calls (the second one on the
    backend the first one leaves) return the same store, hence the same
    identifier, and the second creates nothing; when no store has display
    name [d] beforehand, the first call creates exactly one store. *)
Theorem ensureStore_twice (d : string) (a1 a2 : option string) (st st1 : backend)
    (s1 : FileSearchStore) :
  ensureStore d a1 st = Ok (s1, st1) ->
  ensureStore d a2 st1 = Ok (s1, st1) /\
  ((forall y, In y st -> sdk_displayName y <> Some d) ->
   exists n, st1 = st ++ [mk_sdk_store (Some n) (Some d)] /\ name s1 = n).
Proof.
  unfold ensureStore at 1.
  destruct (findStoreByDisplayName d st) as [found|] eqn:Ef.
  - intros H. injection H as <- <-. split.
    + unfold ensureStore. now rewrite Ef.
    + intros Hnone. rewrite findStoreByDisplayName_none in Ef by exact Hnone.
      discriminate.
  - pose proof (findStoreByDisplayName_none_inv d st Ef) as Hnone.
    destruct a1 as [n|]; [|unfold createStore; simpl; discriminate].
    destruct (String.eqb n "") eqn:En.
    + unfold createStore; simpl. rewrite En. discriminate.
    + apply String.eqb_neq in En.
      rewrite createStore_ok by exact En. intros H. injection H as <- <-.
      split; [|intros _; now exists n].
      unfold ensureStore.
      rewrite (findStoreByDisplayName_first d st (mk_sdk_store (Some n) (Some d)) [])
        by auto.
      reflexivity.
Qed.

Lemma ensureStore_twice_witness :
  ensureStore "docs" (Some "fileSearchStores/new") [store_b]
    = Ok (mk_store "fileSearchStores/new" (Some "docs"),
          [store_b; mk_sdk_store (Some "fileSearchStores/new") (Some "docs")]) /\
  ensureStore "docs" (Some "fileSearchStores/other")
    [store_b; mk_sdk_store (Some "fileSearchStores/new") (Some "docs")]
    = Ok (mk_store "fileSearchStores/new" (Some "docs"),
          [store_b; mk_sdk_store (Some "fileSearchStores/new") (Some "docs")]).
Proof.
  assert (H : ensureStore "docs" (Some "fileSearchStores/new") [store_b]
    = Ok (mk_store "fileSearchStores/new" (Some "docs"),
          [store_b; mk_sdk_store (Some "fileSearchStores/new") (Some "docs")]))
    by (vm_compute; reflexivity).
  split; [exact H|].
  exact (proj1 (ensureStore_twice "docs" _ (Some "fileSearchStores/other") _ _ _ H)).
Defined.

(** C10. A listed store without an identifier is neither an error nor
    dropped: [listStores] keeps it, at its place, with name [""]; and
    [ensureStore] returns it, name [""], when it is the first store with
    the requested display name. *)
Theorem listStores_nameless_entry (p : option nat) (pre : backend) (x : sdk_store)
    (post : backend) (d : string) (a : option string) :
  0 < coalesce p 20 ->
  sdk_name x = None ->
  nth_error (listStores p (pre ++ x :: post)) (length pre)
    = Some (mk_store "" (sdk_displayName x)) /\
  ((forall y, In y pre -> sdk_displayName y <> Some d) ->
   sdk_displayName x = Some d ->
   ensureStore d a (pre ++ x :: post) = Ok (mk_store "" (Some d), pre ++ x :: post)).
Proof.
  intros Hp Hx. split.
  - rewrite listStores_all by exact Hp. rewrite map_app, nth_error_app2 by (rewrite length_map; lia).
    rewrite length_map, Nat.sub_diag. simpl. unfold to_store. now rewrite Hx.
  - intros Hpre Hd. unfold ensureStore.
    rewrite findStoreByDisplayName_first by assumption.
    unfold to_store. now rewrite Hx, Hd.
Qed.

Definition nameless : sdk_store := mk_sdk_store None (Some "docs").

Lemma listStores_nameless_entry_witness :
  nth_error (listStores None [store_b; nameless]) 1 = Some (mk_store "" (Some "docs")) /\
  ensureStore "docs" None [store_b; nameless]
    = Ok (mk_store "" (Some "docs"), [store_b; nameless]).
Proof.
  destruct (listStores_nameless_entry None [store_b] nameless [] "docs" None
              ltac:(simpl; lia) eq_refl) as [H1 H2].
  split; [exact H1|].
  apply H2; [intros y [<-|[]]; discriminate | reflexivity].
Defined.

End StoreClaims.

Module PollerClaims.

(** The events of [k] polling rounds. *)
Definition rounds (pollMs : Z) (k : nat) : list poll_event :=
  concat (repeat [Sleep pollMs; FetchOperation] k).

Definition pending (o : operation) : Prop := done o <> Some true.

Lemma rounds_S pollMs k :
  rounds pollMs (S k) = rounds pollMs k ++ [Sleep pollMs; FetchOperation].
Proof.
  unfold rounds. induction k as [|k IH]; [reflexivity|].
  cbn [repeat] in *. rewrite !concat_cons in *.
  rewrite IH, app_assoc, IH. reflexivity.
Qed.

Lemma wait_pending_object J pollMs o v rest :
  pending o -> typeof v = "object" -> v <> JsNull ->
  waitForOperationDone J pollMs o (v :: rest)
  = let '(out, evs) := waitForOperationDone J pollMs (as_operation v) rest in
    (out, Sleep pollMs :: FetchOperation :: evs).
Proof.
  intros Ho Hv Hn. cbn [waitForOperationDone].
  destruct (done o) as [[|]|] eqn:Ed; [exfalso; now apply Ho| |];
    destruct v; try discriminate; try (exfalso; now apply Hn); reflexivity.
Qed.

Lemma last_cons {A} (p d : A) (ps : list A) : last (p :: ps) d = last ps p.
Proof.
  revert p d. induction ps as [|q ps IH]; intros p d; [reflexivity|].
  change (last (q :: ps) d = last (q :: ps) p). rewrite !IH. reflexivity.
Qed.

Lemma wait_pending_objects J pollMs o0 ps rest :
  Forall pending (o0 :: ps) ->
  waitForOperationDone J pollMs o0 (map JsObject ps ++ rest)
  = let '(out, evs) := waitForOperationDone J pollMs (last ps o0) rest in
    (out, rounds pollMs (length ps) ++ evs).
Proof.
  revert o0. induction ps as [|p ps IH]; intros o0 Hall.
  - simpl. destruct (waitForOperationDone J pollMs o0 rest); reflexivity.
  - inversion Hall as [|? ? Ho0 Hrest]; subst.
    cbn [map app]. rewrite wait_pending_object by (auto; discriminate).
    cbn [as_operation]. rewrite (IH p Hrest).
    rewrite last_cons.
    destruct (waitForOperationDone J pollMs (last ps p) rest). reflexivity.
Qed.

(** C6. An operation that is already done without an error is returned
    as it is, with no sleep and no fetch. *)
Theorem wait_done_no_error J pollMs (o : operation) (refreshes : list js_value) :
  done o = Some true -> error o = None ->
  waitForOperationDone J pollMs o refreshes = (Returned o, []).
Proof. intros Hd He. destruct refreshes; simpl; now rewrite Hd, He. Qed.

(** A [JSON.stringify] for the examples: the payload [{"code":13}]. *)
Definition dq : string := String (ascii_of_nat 34) EmptyString.

Definition stringify_stub (e : op_error) : string :=
  "{" ++ dq ++ "code" ++ dq ++ ":13}".

Definition finished_op : operation :=
  mk_operation (Some true) (Some "operations/1") None (Some (mk_op_response (Some "documents/d1"))).

Lemma wait_done_no_error_witness :
  waitForOperationDone stringify_stub 5000 finished_op [JsNull] = (Returned finished_op, []).
Proof. apply wait_done_no_error; reflexivity. Defined.

Definition failed_op (msg : option string) : operation :=
  mk_operation (Some true) (Some "operations/2") (Some (mk_op_error msg (Some 13%Z))) None.

(** C2, as stated, fails: the poller throws a plain [Error] (its [name] is
    ["Error"]), not a dedicated [RemoteOperationError]. *)
Lemma wait_done_error_counterexample :
  waitForOperationDone stringify_stub 5000 (failed_op (Some "quota exceeded")) []
    = (Failed (mk_js_error "Error" "quota exceeded"), []) /\
  "Error" <> "RemoteOperationError".
Proof. split; [reflexivity | discriminate]. Qed.

(** C2, amended. Over a run whose snapshots (the initial one, then the
    fetched ones) are pending until one is done with an error, the poller
    fails at that first done-with-error snapshot, after one round per
    pending snapshot, with a plain [Error] whose message is the error's
    [message], or [JSON.stringify] of the error payload when it has none. *)
Theorem wait_done_error J pollMs (pend : list operation) (x : operation) (e : op_error)
    (rest : list js_value) :
  Forall pending pend ->
  done x = Some true -> error x = Some e ->
  waitForOperationDone J pollMs (hd x pend) (map JsObject (tl (pend ++ [x])) ++ rest)
  = (Failed (new_Error (coalesce (error_message e) (J e))), rounds pollMs (length pend)).
Proof.
  intros Hpend Hd He.
  destruct pend as [|o0 ps].
  - simpl. destruct rest; simpl; now rewrite Hd, He.
  - cbn [hd tl app]. rewrite map_app, <- app_assoc. cbn [map app].
    assert (Hall : Forall pending (o0 :: ps)) by exact Hpend.
    rewrite (wait_pending_objects J pollMs o0 ps (JsObject x :: rest) Hall).
    assert (Hlast : pending (last ps o0)).
    { clear -Hall. revert o0 Hall. induction ps as [|p ps IH]; intros o0 Hall.
      - now inversion Hall.
      - inversion Hall; subst. rewrite last_cons. now apply IH. }
    rewrite wait_pending_object by (auto; discriminate).
    cbn [as_operation].
    replace (waitForOperationDone J pollMs x rest)
      with (Failed (new_Error (coalesce (error_message e) (J e))), @nil poll_event)
      by (destruct rest; simpl; now rewrite Hd, He).
    cbn [length]. now rewrite rounds_S.
Qed.

Definition pending_op : operation := mk_operation (Some false) (Some "operations/3") None None.

Lemma wait_done_error_witness :
  Forall pending [pending_op] /\
  waitForOperationDone stringify_stub 5000 pending_op [JsObject (failed_op None)]
    = (Failed (new_Error (stringify_stub (mk_op_error None (Some 13%Z)))),
       [Sleep 5000; FetchOperation]).
Proof.
  assert (Hp : Forall pending [pending_op])
    by (constructor; [discriminate | constructor]).
  split; [exact Hp|].
  exact (wait_done_error stringify_stub 5000 [pending_op] (failed_op None) _ []
           Hp eq_refl eq_refl).
Defined.

Lemma last_pending (o0 : operation) ps :
  Forall pending (o0 :: ps) -> pending (last ps o0).
Proof.
  revert o0. induction ps as [|p ps IH]; intros o0 Hall.
  - now inversion Hall.
  - inversion Hall; subst. rewrite last_cons. now apply IH.
Qed.

(** C5, as stated, fails twice: the error thrown on a [null] refresh is a
    plain [Error], not a [ProtocolError]; and a refresh that is an object
    but no operation (an array) is not refused: polling goes on. *)
Lemma malformed_refresh_counterexample :
  fst (waitForOperationDone stringify_stub 5000 pending_op [JsNull])
    = Failed (mk_js_error "Error" "Invalid operation state received while polling") /\
  "Error" <> "ProtocolError" /\
  fst (waitForOperationDone stringify_stub 5000 pending_op [JsArray 0; JsObject finished_op])
    = Returned finished_op.
Proof. split; [reflexivity | split; [discriminate | reflexivity]]. Qed.

(** C5, amended. When, after pending snapshots, a refresh is [null] or not
    of type ["object"], the poller stops at once with a plain [Error]
    ["Invalid operation state received while polling"]; a refresh that is
    any non-null object (an array included) is taken as the next snapshot
    and polling goes on from it. *)
Theorem wait_malformed_refresh J pollMs :
  (forall o0 ps v rest,
     Forall pending (o0 :: ps) ->
     (typeof v <> "object" \/ v = JsNull) ->
     waitForOperationDone J pollMs o0 (map JsObject ps ++ v :: rest)
     = (Failed (new_Error "Invalid operation state received while polling"),
        rounds pollMs (S (length ps)))) /\
  (forall o v rest,
     pending o -> typeof v = "object" -> v <> JsNull ->
     waitForOperationDone J pollMs o (v :: rest)
     = let '(out, evs) := waitForOperationDone J pollMs (as_operation v) rest in
       (out, Sleep pollMs :: FetchOperation :: evs)).
Proof.
  split; [|apply wait_pending_object].
  intros o0 ps v rest Hall Hv.
  rewrite (wait_pending_objects J pollMs o0 ps (v :: rest) Hall).
  pose proof (last_pending o0 ps Hall) as Hl.
  replace (waitForOperationDone J pollMs (last ps o0) (v :: rest))
    with (Failed (new_Error "Invalid operation state received while polling"),
          [Sleep pollMs; FetchOperation]).
  - now rewrite rounds_S.
  - cbn [waitForOperationDone].
    assert (Hb : (negb (String.eqb (typeof v) "object") || is_null v)%bool = true).
    { destruct Hv as [Hv| ->]; [|reflexivity].
      destruct (String.eqb (typeof v) "object") eqn:Et; [|reflexivity].
      apply String.eqb_eq in Et. contradiction. }
    destruct (done (last ps o0)) as [[|]|] eqn:Ed; [exfalso; now apply Hl| |];
      rewrite Hb; reflexivity.
Qed.

Lemma wait_malformed_refresh_witness :
  Forall pending [pending_op] /\
  waitForOperationDone stringify_stub 5000 pending_op [JsNumber 0]
    = (Failed (new_Error "Invalid operation state received while polling"),
       [Sleep 5000; FetchOperation]).
Proof.
  assert (Hp : Forall pending [pending_op])
    by (constructor; [discriminate | constructor]).
  assert (Hn : typeof (JsNumber 0) <> "object") by discriminate.
  split; [exact Hp|].
  exact (proj1 (wait_malformed_refresh stringify_stub 5000) pending_op [] (JsNumber 0) []
           Hp (or_introl Hn)).
Defined.

End PollerClaims.

Module UploadClaims.
Import PollerClaims.

Lemma string_length_append (s1 s2 : string) :
  String.length (s1 ++ s2) = String.length s1 + String.length s2.
Proof. induction s1 as [|c s1 IH]; simpl; [reflexivity | now rewrite IH]. Qed.

Lemma hex_bytes_length rnd from count :
  String.length (hex_bytes rnd from count) = 2 * count.
Proof.
  revert from. induction count as [|c IH]; intros from; [reflexivity|].
  cbn [hex_bytes]. rewrite string_length_append, IH. simpl. lia.
Qed.

Lemma randomUUID_length rnd : String.length (randomUUID rnd) = 36.
Proof.
  unfold randomUUID. rewrite !string_length_append, !hex_bytes_length. reflexivity.
Qed.

(** C7. When the upload's operation completes successfully but its result
    payload has no [documentName] (no [response], or a [response] without
    it), [uploadBlob] does not fail: it answers a fresh [randomUUID()],
    a 36-character, hence non-empty, identifier. *)
Theorem uploadBlob_missing_documentName J (op : operation) (refreshes : list js_value)
    (rnd : nat -> Z) (o : operation) :
  fst (waitForOperationDone J 5000 op refreshes) = Returned o ->
  (forall r, response o = Some r -> documentName r = None) ->
  uploadBlob J op refreshes rnd = (Returned o, Some (randomUUID rnd)) /\
  randomUUID rnd <> "" /\ String.length (randomUUID rnd) = 36.
Proof.
  intros Hw Hr. split; [|split].
  - unfold uploadBlob.
    destruct (waitForOperationDone J 5000 op refreshes) as [out evs]. simpl in Hw. subst out.
    destruct (response o) as [r|] eqn:E; [now rewrite (Hr r eq_refl) | reflexivity].
  - intros H. pose proof (randomUUID_length rnd) as L. rewrite H in L. discriminate.
  - apply randomUUID_length.
Qed.

Definition upload_done_op : operation :=
  mk_operation (Some true) (Some "operations/4") None (Some (mk_op_response None)).

Lemma uploadBlob_missing_documentName_witness :
  uploadBlob stringify_stub pending_op [JsObject upload_done_op] (fun i => Z.of_nat i)
    = (Returned upload_done_op, Some (randomUUID (fun i => Z.of_nat i))) /\
  randomUUID (fun i => Z.of_nat i) <> "" /\
  String.length (randomUUID (fun i => Z.of_nat i)) = 36.
Proof.
  apply (uploadBlob_missing_documentName stringify_stub pending_op [JsObject upload_done_op]
           (fun i => Z.of_nat i) upload_done_op).
  - reflexivity.
  - intros r H. injection H as <-. reflexivity.
Defined.

End UploadClaims.

Module CitationClaims.

(** The citations as section 4.4 of the specification words them: each
    grounding chunk's web-source URI, in order, a chunk lacking one
    skipped. *)
Definition citations_spec (cs : list grounding_chunk) : list string :=
  flat_map (fun ch => match web ch with
                      | Some (mk_web (Some u)) => [u]
                      | _ => []
                      end) cs.

Lemma flat_map_map_uri (cs : list grounding_chunk) :
  flat_map (fun u => match u with Some s => [s] | None => [] end)
    (map (fun ch => match web ch with Some w => uri w | None => None end) cs)
  = citations_spec cs.
Proof.
  induction cs as [|ch cs IH]; simpl; [reflexivity|].
  rewrite IH. destruct (web ch) as [[[u|]]|]; reflexivity.
Qed.

Definition no_uri (ch : grounding_chunk) : Prop :=
  web ch = None \/ web ch = Some (mk_web None).

Definition with_uri (u : string) : grounding_chunk := mk_chunk (Some (mk_web (Some u))).

Definition response_of (cs : list grounding_chunk) : gen_response :=
  mk_response (Some [mk_candidate (Some (mk_gm (Some cs)))]).

(** C8. For every query response, the citations are read from the first
    candidate's grounding metadata: its chunks' web URIs, in the backend's
    order, chunks without a URI left out (so one chunk without a URI and one
    with [u], in either order, give exactly [[u]]). When there is no such
    metadata (no candidates at all, an empty candidate list, a first
    candidate without grounding metadata, or metadata without grounding
    chunks) the citations are empty; [extractCitations] is total, so no
    response makes it fail. *)
Theorem extractCitations_first_candidate (resp : gen_response) :
  (forall c rest gm cs, candidates resp = Some (c :: rest) ->
     groundingMetadata c = Some gm -> groundingChunks gm = Some cs ->
     extractCitations resp = citations_spec cs) /\
  (candidates resp = None -> extractCitations resp = []) /\
  (candidates resp = Some [] -> extractCitations resp = []) /\
  (forall c rest, candidates resp = Some (c :: rest) -> groundingMetadata c = None ->
     extractCitations resp = []) /\
  (forall c rest gm, candidates resp = Some (c :: rest) -> groundingMetadata c = Some gm ->
     groundingChunks gm = None -> extractCitations resp = []) /\
  (forall bad u, no_uri bad ->
     extractCitations (response_of [bad; with_uri u]) = [u] /\
     extractCitations (response_of [with_uri u; bad]) = [u]).
Proof.
  unfold extractCitations.
  refine (conj _ (conj _ (conj _ (conj _ (conj _ _))))).
  - intros c rest gm cs Hc Hgm Hcs. rewrite Hc, Hgm, Hcs. apply flat_map_map_uri.
  - intros Hc. now rewrite Hc.
  - intros Hc. now rewrite Hc.
  - intros c rest Hc Hgm. now rewrite Hc, Hgm.
  - intros c rest gm Hc Hgm Hcs. now rewrite Hc, Hgm, Hcs.
  - intros bad u Hbad. unfold response_of; simpl.
    destruct Hbad as [H|H]; rewrite H; split; reflexivity.
Qed.

Lemma extractCitations_first_candidate_witness :
  extractCitations (response_of [mk_chunk None; with_uri "https://example.com/a"])
    = citations_spec [mk_chunk None; with_uri "https://example.com/a"] /\
  extractCitations (mk_response None) = [] /\
  extractCitations (mk_response (Some [])) = [] /\
  extractCitations (mk_response (Some [mk_candidate None])) = [] /\
  extractCitations (mk_response (Some [mk_candidate (Some (mk_gm None))])) = [] /\
  extractCitations (response_of [with_uri "https://example.com/b"; mk_chunk None])
    = ["https://example.com/b"].
Proof.
  refine (conj _ (conj _ (conj _ (conj _ (conj _ _))))).
  - apply (proj1 (extractCitations_first_candidate
                    (response_of [mk_chunk None; with_uri "https://example.com/a"]))
             (mk_candidate (Some (mk_gm (Some [mk_chunk None; with_uri "https://example.com/a"]))))
             [] (mk_gm (Some [mk_chunk None; with_uri "https://example.com/a"])));
      reflexivity.
  - apply (proj1 (proj2 (extractCitations_first_candidate (mk_response None)))).
    reflexivity.
  - apply (proj1 (proj2 (proj2 (extractCitations_first_candidate (mk_response (Some [])))))).
    reflexivity.
  - apply (proj1 (proj2 (proj2 (proj2 (extractCitations_first_candidate
                                         (mk_response (Some [mk_candidate None])))))))
      with (c := mk_candidate None) (rest := []); reflexivity.
  - apply (proj1 (proj2 (proj2 (proj2 (proj2 (extractCitations_first_candidate
             (mk_response (Some [mk_candidate (Some (mk_gm None))]))))))))
      with (c := mk_candidate (Some (mk_gm None))) (rest := []) (gm := mk_gm None);
      reflexivity.
  - pose proof (proj2 (proj2 (proj2 (proj2 (proj2 (extractCitations_first_candidate
                  (mk_response None)))))) (mk_chunk None) "https://example.com/b"
                  (or_introl eq_refl)) as H.
    exact (proj2 H).
Defined.

End CitationClaims.

Module ExtraFacts.
Import PollerClaims.

(** The [text] fields that are present, in order. *)
Definition present_texts (ps : list content_part) : list string :=
  flat_map (fun p => match part_text p with Some t => [t] | None => [] end) ps.

Lemma join_texts_present ps :
  join_texts ps = fold_right append "" (present_texts ps).
Proof.
  induction ps as [|p ps IH]; [reflexivity|].
  cbn [join_texts present_texts flat_map]. fold (present_texts ps). rewrite IH.
  destruct (part_text p); reflexivity.
Qed.

(** X1. The answer text is the first candidate's parts' [text] fields
    concatenated in order, a part without text contributing nothing; with
    no candidate (absent or empty list), no content or no parts, the text
    is empty. *)
Theorem extractResponseText_parts (resp : generate_content_response) :
  (forall c rest ct ps,
     gc_candidates resp = Some (c :: rest) -> fc_content c = Some ct -> parts ct = Some ps ->
     extractResponseText resp = fold_right append "" (present_texts ps)) /\
  ((gc_candidates resp = None \/ gc_candidates resp = Some []) -> extractResponseText resp = "") /\
  (forall c rest, gc_candidates resp = Some (c :: rest) ->
     (fc_content c = None \/ exists ct, fc_content c = Some ct /\ parts ct = None) ->
     extractResponseText resp = "").
Proof.
  split; [|split].
  - intros c rest ct ps Hc Hct Hps. unfold extractResponseText.
    rewrite Hc, Hct, Hps. apply join_texts_present.
  - intros [H|H]; unfold extractResponseText; now rewrite H.
  - intros c rest Hc [H|[ct [H1 H2]]]; unfold extractResponseText; rewrite Hc.
    + now rewrite H.
    + now rewrite H1, H2.
Qed.

Definition hello_response : generate_content_response :=
  mk_gc_response (Some [mk_full_candidate
    (Some (mk_content (Some [mk_part (Some "Hello, "); mk_part None; mk_part (Some "world")])))
    None]).

Lemma extractResponseText_parts_witness :
  extractResponseText hello_response = "Hello, world" /\
  extractResponseText (mk_gc_response (Some [])) = "".
Proof.
  split.
  - apply (proj1 (extractResponseText_parts hello_response) _ [] _ _ eq_refl eq_refl eq_refl).
  - apply (proj1 (proj2 (extractResponseText_parts (mk_gc_response (Some []))))). now right.
Defined.

(** X2. Whatever the snapshots, a poll's effects are whole rounds, each a
    sleep of [pollMs] followed by one fetch: the poller never fetches
    without sleeping first. A snapshot that is not done (even one carrying
    an error) is never returned or failed on without a round, when the
    backend answers. *)
Theorem wait_trace_rounds J pollMs :
  (forall o refreshes, exists k, snd (waitForOperationDone J pollMs o refreshes) = rounds pollMs k) /\
  (forall o v refreshes, pending o ->
     exists evs, snd (waitForOperationDone J pollMs o (v :: refreshes)) = Sleep pollMs :: FetchOperation :: evs).
Proof.
  split.
  - intros o refreshes. revert o. induction refreshes as [|v rest IH]; intros o.
    + exists 0%nat. simpl. destruct (done o) as [[|]|]; try reflexivity.
      destruct (error o); reflexivity.
    + cbn [waitForOperationDone].
      destruct (done o) as [[|]|].
      * exists 0%nat. destruct (error o); reflexivity.
      * destruct (negb _ || is_null v)%bool; [exists 1%nat; reflexivity|].
        destruct (IH (as_operation v)) as [k Hk].
        destruct (waitForOperationDone J pollMs (as_operation v) rest) as [out evs].
        exists (S k). simpl in *. now rewrite Hk.
      * destruct (negb _ || is_null v)%bool; [exists 1%nat; reflexivity|].
        destruct (IH (as_operation v)) as [k Hk].
        destruct (waitForOperationDone J pollMs (as_operation v) rest) as [out evs].
        exists (S k). simpl in *. now rewrite Hk.
  - intros o v rest Ho. cbn [waitForOperationDone].
    destruct (done o) as [[|]|] eqn:Ed; [exfalso; now apply Ho| |];
      (destruct (negb _ || is_null v)%bool; [eexists; reflexivity|]);
      destruct (waitForOperationDone J pollMs (as_operation v) rest); eexists; reflexivity.
Qed.

Definition erroring_pending : operation :=
  mk_operation (Some false) (Some "operations/5") (Some (mk_op_error (Some "transient") None)) None.

Lemma wait_trace_rounds_witness :
  exists evs, snd (waitForOperationDone stringify_stub 5000 erroring_pending [JsObject finished_op])
              = Sleep 5000 :: FetchOperation :: evs.
Proof.
  apply (proj2 (wait_trace_rounds stringify_stub 5000)). discriminate.
Defined.

(** X3. The poller only ever returns a snapshot that reports [done = true]
    and carries no error; every returned snapshot is the initial one or one
    the backend answered as an object. *)
Theorem wait_returns_done_without_error J pollMs (o : operation) (refreshes : list js_value)
    (r : operation) :
  fst (waitForOperationDone J pollMs o refreshes) = Returned r ->
  done r = Some true /\ error r = None /\
  (r = o \/ exists v, In v refreshes /\ typeof v = "object" /\ r = as_operation v).
Proof.
  revert o. induction refreshes as [|v rest IH]; intros o.
  - simpl. destruct (done o) as [[|]|] eqn:Ed; try discriminate.
    destruct (error o) eqn:Ee; [discriminate|]. intros H. injection H as <-. auto.
  - cbn [waitForOperationDone].
    destruct (done o) as [[|]|] eqn:Ed.
    + destruct (error o) eqn:Ee; [discriminate|]. intros H. injection H as <-. auto.
    + destruct (negb (String.eqb (typeof v) "object") || is_null v)%bool eqn:Eb; [discriminate|].
      destruct (waitForOperationDone J pollMs (as_operation v) rest) as [out evs] eqn:Ew.
      simpl. intros Hout. specialize (IH (as_operation v)). rewrite Ew in IH.
      destruct (IH Hout) as [Hd [He [Hr|[w [Hw1 Hw2]]]]]; repeat split; auto.
      * right. exists v. split; [now left|]. split; [|exact Hr].
        destruct (String.eqb (typeof v) "object") eqn:Et; [now apply String.eqb_eq|discriminate].
      * right. exists w. split; [now right | exact Hw2].
    + destruct (negb (String.eqb (typeof v) "object") || is_null v)%bool eqn:Eb; [discriminate|].
      destruct (waitForOperationDone J pollMs (as_operation v) rest) as [out evs] eqn:Ew.
      simpl. intros Hout. specialize (IH (as_operation v)). rewrite Ew in IH.
      destruct (IH Hout) as [Hd [He [Hr|[w [Hw1 Hw2]]]]]; repeat split; auto.
      * right. exists v. split; [now left|]. split; [|exact Hr].
        destruct (String.eqb (typeof v) "object") eqn:Et; [now apply String.eqb_eq|discriminate].
      * right. exists w. split; [now right | exact Hw2].
Qed.

Lemma wait_returns_done_without_error_witness :
  done finished_op = Some true /\ error finished_op = None /\
  (finished_op = erroring_pending \/
   exists v, In v [JsObject finished_op] /\ typeof v = "object" /\ finished_op = as_operation v).
Proof.
  apply (wait_returns_done_without_error stringify_stub 5000 erroring_pending
           [JsObject finished_op] finished_op).
  reflexivity.
Defined.

(** X4. When the finished upload operation carries a [documentName],
    [uploadBlob] returns it verbatim, the empty string included (only an
    absent one is replaced by a [randomUUID()]). *)
Theorem uploadBlob_documentName_verbatim J (op : operation) (refreshes : list js_value)
    (rnd : nat -> Z) (o : operation) (r : op_response) (dn : string) :
  fst (waitForOperationDone J 5000 op refreshes) = Returned o ->
  response o = Some r -> documentName r = Some dn ->
  uploadBlob J op refreshes rnd = (Returned o, Some dn).
Proof.
  intros Hw Hr Hd. unfold uploadBlob.
  destruct (waitForOperationDone J 5000 op refreshes) as [out evs]. simpl in Hw. subst out.
  now rewrite Hr, Hd.
Qed.

Definition empty_name_op : operation :=
  mk_operation (Some true) (Some "operations/6") None (Some (mk_op_response (Some ""))).

Lemma uploadBlob_documentName_verbatim_witness :
  uploadBlob stringify_stub empty_name_op [] (fun _ => 0%Z) = (Returned empty_name_op, Some "").
Proof.
  apply (uploadBlob_documentName_verbatim stringify_stub empty_name_op [] (fun _ => 0%Z)
           empty_name_op (mk_op_response (Some ""))); reflexivity.
Defined.

Definition is_index_key {A} (kv : string * A) : bool :=
  match array_index (fst kv) with Some _ => true | None => false end.

Lemma insert_by_index_perm {A} (x : N * A) l :
  Permutation (insert_by_index x l) (x :: l).
Proof.
  induction l as [|y l IH]; simpl; [reflexivity|].
  destruct (fst x <? fst y)%N; [reflexivity|].
  rewrite IH. apply perm_swap.
Qed.

Lemma Object_entries_perm {A} (l : list (string * A)) : Permutation (Object_entries l) l.
Proof.
  unfold Object_entries. induction l as [|[k v] l IH]; [reflexivity|].
  cbn [index_entries filter fst].
  destruct (array_index k) as [n|].
  - rewrite (Permutation_map snd (insert_by_index_perm _ _)). simpl.
    now apply perm_skip.
  - rewrite <- Permutation_middle. now apply perm_skip.
Qed.

(** X5. [convertMetadataInput] keeps every entry exactly once, each turned
    into [{key, stringValue}] for a string and [{key, numericValue}] for a
    number (never both, never neither): the result is a permutation of the
    entry-wise conversion of the input. *)
Theorem convertMetadataInput_entries (input : MetadataInput) :
  Permutation (convertMetadataInput input) (map convert_entry input) /\
  length (convertMetadataInput input) = length input /\
  (forall m, In m (convertMetadataInput input) ->
     exists v, In (key m, v) input /\
       match v with
       | MString s => stringValue m = Some s /\ numericValue m = None
       | MNumber n => stringValue m = None /\ numericValue m = Some n
       end).
Proof.
  assert (P : Permutation (convertMetadataInput input) (map convert_entry input))
    by (unfold convertMetadataInput; apply Permutation_map, Object_entries_perm).
  split; [exact P|split].
  - rewrite (Permutation_length P). apply length_map.
  - intros m Hm. apply (Permutation_in _ P) in Hm.
    apply in_map_iff in Hm as [[k v] [<- Hin]].
    exists v. destruct v; simpl; auto.
Qed.

Lemma index_entries_sorted {A} (l : list (string * A)) :
  Sorted (fun x y => (fst x <= fst y)%N) (index_entries l).
Proof.
  assert (Hins : forall (x : N * (string * A)) l',
            Sorted (fun x y => (fst x <= fst y)%N) l' ->
            Sorted (fun x y => (fst x <= fst y)%N) (insert_by_index x l')).
  { intros x l' Hs. induction Hs as [|y l' Hs IH Hhd]; simpl.
    - repeat constructor.
    - destruct (fst x <? fst y)%N eqn:E.
      + apply N.ltb_lt in E. constructor; [constructor; auto|]. constructor. lia.
      + apply N.ltb_ge in E. constructor; [exact IH|].
        destruct l' as [|z l'']; simpl; [constructor; lia|].
        inversion Hhd; subst.
        destruct (fst x <? fst z)%N; constructor; lia. }
  induction l as [|[k v] l IH]; simpl; [constructor|].
  destruct (array_index k); auto.
Qed.

Lemma index_entries_keys {A} (l : list (string * A)) n kv :
  In (n, kv) (index_entries l) -> array_index (fst kv) = Some n /\ In kv l.
Proof.
  induction l as [|[k v] l IH]; simpl; [contradiction|].
  destruct (array_index k) as [m|] eqn:E.
  - intros H. apply (Permutation_in _ (insert_by_index_perm _ _)) in H.
    destruct H as [H|H].
    + injection H as <- <-. simpl. auto.
    + destruct (IH H); auto.
  - intros H. destruct (IH H); auto.
Qed.

(** X6. The conversion follows JavaScript's own-property order: first the
    entries whose key is an array index (["0"], ["7"], ["10"], ...), in
    ascending numeric order, then the other entries in insertion order; so
    when no key is an array index, the input order is kept. *)
Theorem convertMetadataInput_order (input : MetadataInput) :
  (exists ie,
     convertMetadataInput input
       = map convert_entry (map snd ie) ++ map convert_entry (filter (fun kv => negb (is_index_key kv)) input) /\
     Sorted (fun x y => (fst x <= fst y)%N) ie /\
     (forall n kv, In (n, kv) ie -> array_index (fst kv) = Some n /\ In kv input)) /\
  ((forall kv, In kv input -> array_index (fst kv) = None) ->
   convertMetadataInput input = map convert_entry input).
Proof.
  split.
  - exists (index_entries input). split; [|split].
    + unfold convertMetadataInput, Object_entries. rewrite map_app. f_equal.
      f_equal. apply filter_ext. intros [k v]. unfold is_index_key. simpl.
      destruct (array_index k); reflexivity.
    + apply index_entries_sorted.
    + apply index_entries_keys.
  - intros H. unfold convertMetadataInput, Object_entries.
    assert (Hie : index_entries input = []).
    { destruct (index_entries input) as [|[n kv] ie] eqn:E; [reflexivity|].
      destruct (index_entries_keys input n kv) as [H1 H2]; [rewrite E; now left|].
      rewrite (H kv H2) in H1. discriminate. }
    rewrite Hie. simpl. f_equal. rewrite filter_ext_in with (g := fun _ => true).
    + clear. induction input as [|x l IH]; simpl; congruence.
    + intros [k v] Hin. pose proof (H (k, v) Hin) as Hk. simpl in *. now rewrite Hk.
Qed.

Definition sample_metadata : MetadataInput :=
  [("year", MNumber 2025); ("10", MString "ten"); ("2", MString "two"); ("category", MString "guide")].

Lemma convertMetadataInput_order_witness :
  map key (convertMetadataInput sample_metadata) = ["2"; "10"; "year"; "category"] /\
  convertMetadataInput [("category", MString "guide"); ("year", MNumber 2025)]
    = map convert_entry [("category", MString "guide"); ("year", MNumber 2025)].
Proof.
  split; [vm_compute; reflexivity|].
  apply (proj2 (convertMetadataInput_order _)).
  intros kv [<-|[<-|[]]]; reflexivity.
Defined.

(** X7. The [ensure_store] tool answers the same store as [ensureStore]
    (same identifier, same display name, same backend afterwards, the same
    error when creation fails), and reports [created = true] exactly when
    no store had the configured display name. *)
Theorem EnsureStoreTool_agrees (ctx : ToolContext) (assigned : option string) (st : backend) :
  match EnsureStoreTool_execute ctx assigned st, ensureStore (storeDisplayName ctx) assigned st with
  | Ok (r, st1), Ok (s, st2) =>
      er_storeName (data r) = name s /\ er_displayName (data r) = displayName s /\ st1 = st2 /\
      success r = true /\
      created (data r) = match findStoreByDisplayName (storeDisplayName ctx) st with
                         | Some _ => false
                         | None => true
                         end
  | Throw e1, Throw e2 => e1 = e2
  | _, _ => False
  end.
Proof.
  unfold EnsureStoreTool_execute, ensureStore.
  destruct (findStoreByDisplayName (storeDisplayName ctx) st) as [s|].
  - repeat split.
  - destruct (createStore (storeDisplayName ctx) assigned st) as [[s st']|e]; [|reflexivity].
    repeat split.
Qed.

(** X8. The [list_stores] tool reports every store of the backend: its
    [total] is the size of the whole collection, whatever positive page
    size is requested (default 20). *)
Theorem ListStoresTool_total (pageSize : option nat) (st : backend) :
  0 < coalesce pageSize 20 ->
  stores (ListStoresTool_execute pageSize st) = map to_store st /\
  total (ListStoresTool_execute pageSize st) = length st.
Proof.
  intros Hp. unfold ListStoresTool_execute. cbn [stores total].
  rewrite StoreFacts.listStores_all by exact Hp.
  split; [reflexivity | apply length_map].
Qed.

Lemma ListStoresTool_total_witness :
  stores (ListStoresTool_execute None StoreClaims.many_stores) = map to_store StoreClaims.many_stores /\
  total (ListStoresTool_execute None StoreClaims.many_stores) = 21%nat.
Proof.
  destruct (ListStoresTool_total None StoreClaims.many_stores ltac:(simpl; lia)) as [H1 H2].
  split; [exact H1 | rewrite H2; reflexivity].
Defined.

(** X9. When a store with the configured display name exists, the
    [query_store] tool creates nothing and sends one request, scoped to
    exactly the first such store's identifier, with the configured default
    model and the query as contents; it answers the text and citations
    extracted from the backend's response to that request. *)
Theorem QueryStoreTool_scoped (ctx : ToolContext) (query : string) (assigned : option string)
    (respond : generate_request -> generate_content_response) (pre : backend) (x : sdk_store)
    (post : backend) :
  (forall y, In y pre -> sdk_displayName y <> Some (storeDisplayName ctx)) ->
  sdk_displayName x = Some (storeDisplayName ctx) ->
  let req := mk_generate_request (defaultModel ctx) query [name (to_store x)] in
  QueryStoreTool_execute ctx query assigned respond (pre ++ x :: post)
  = Ok (req,
        mk_query_result (extractResponseText (respond req))
                        (extractCitations (citation_view (respond req)))
                        query (defaultModel ctx) (name (to_store x)),
        pre ++ x :: post).
Proof.
  intros Hpre Hx req. unfold QueryStoreTool_execute.
  rewrite (proj1 (StoreClaims.ensureStore_find_or_create _ assigned) pre x post Hpre Hx).
  reflexivity.
Qed.

Definition echo_backend (req : generate_request) : generate_content_response :=
  mk_gc_response (Some [mk_full_candidate
    (Some (mk_content (Some [mk_part (Some (req_contents req))])))
    (Some (mk_gm (Some (map (fun n => mk_chunk (Some (mk_web (Some n))))
                            (req_fileSearchStoreNames req)))))]).

Lemma QueryStoreTool_scoped_witness :
  QueryStoreTool_execute (mk_context "docs" "gemini-2.5-flash") "what?" None echo_backend
    [StoreClaims.store_b; StoreClaims.store_a]
  = Ok (mk_generate_request "gemini-2.5-flash" "what?" ["fileSearchStores/a"],
        mk_query_result "what?" ["fileSearchStores/a"] "what?" "gemini-2.5-flash" "fileSearchStores/a",
        [StoreClaims.store_b; StoreClaims.store_a]).
Proof.
  apply (QueryStoreTool_scoped (mk_context "docs" "gemini-2.5-flash") "what?" None echo_backend
           [StoreClaims.store_b] StoreClaims.store_a []).
  - intros y [<-|[]]. discriminate.
  - reflexivity.
Defined.

(** X10. The [upload_content] tool uploads to the identifier of the store
    [ensureStore] answers, as [text/plain] (request and blob) whatever the
    content, with the content as payload, the given display name, and custom
    metadata exactly when metadata is given (converted by
    [convertMetadataInput]); on success it reports the document name of the
    upload and the content's length. *)
Theorem UploadContentTool_request J (ctx : ToolContext) (content displayName : string)
    (metadata : option MetadataInput) (assigned : option string)
    (submit : upload_request -> operation) (refreshes : list js_value) (rnd : nat -> Z)
    (st st' : backend) (store : FileSearchStore) :
  ensureStore (storeDisplayName ctx) assigned st = Ok (store, st') ->
  exists req out,
    UploadContentTool_execute J ctx content displayName metadata assigned submit refreshes rnd st
      = (Some req, out, st') /\
    up_fileSearchStoreName req = name store /\
    up_mimeType req = "text/plain" /\ up_blob_type req = "text/plain" /\
    up_payload req = content /\ up_displayName req = displayName /\
    up_customMetadata req = option_map convertMetadataInput metadata /\
    (forall dn, upload_outcome (uploadBlob J (submit req) refreshes rnd) = Uploaded dn ->
       exists r, out = ToolDone r /\ success r = true /\
         uc_documentName (data r) = dn /\ uc_storeName (data r) = name store /\
         contentLength (data r) = String.length content).
Proof.
  intros He. unfold UploadContentTool_execute. rewrite He. unfold uploadContent.
  eexists; eexists. split; [reflexivity|].
  cbn [up_fileSearchStoreName up_mimeType up_blob_type up_payload up_displayName up_customMetadata].
  repeat split.
  intros dn Hdn. rewrite Hdn. eexists; repeat split.
Qed.

Lemma UploadContentTool_request_witness :
  exists req out,
    UploadContentTool_execute stringify_stub (mk_context "docs" "m") "hello world" "greeting.txt"
      (Some [("lang", MString "en")]) None (fun _ => finished_op) [] (fun _ => 0%Z)
      [StoreClaims.store_a]
      = (Some req, out, [StoreClaims.store_a]) /\
    up_fileSearchStoreName req = "fileSearchStores/a" /\
    up_mimeType req = "text/plain" /\ up_blob_type req = "text/plain" /\
    up_payload req = "hello world" /\ up_displayName req = "greeting.txt" /\
    up_customMetadata req = Some [mk_custom_metadata "lang" (Some "en") None] /\
    (forall dn, upload_outcome (uploadBlob stringify_stub ((fun _ => finished_op) req) [] (fun _ => 0%Z))
                = Uploaded dn ->
       exists r, out = ToolDone r /\ success r = true /\
         uc_documentName (data r) = dn /\ uc_storeName (data r) = "fileSearchStores/a" /\
         contentLength (data r) = String.length "hello world").
Proof.
  apply (UploadContentTool_request stringify_stub (mk_context "docs" "m") "hello world"
           "greeting.txt" (Some [("lang", MString "en")]) None (fun _ => finished_op) []
           (fun _ => 0%Z) [StoreClaims.store_a] [StoreClaims.store_a] (to_store StoreClaims.store_a)).
  reflexivity.
Defined.

(** Whether a string contains a character. *)
Fixpoint has_char (c : ascii) (s : string) : bool :=
  match s with
  | EmptyString => false
  | String d rest => Ascii.eqb d c || has_char c rest
  end.

Lemma split_no_sep sep e : has_char sep e = false -> UploadFileTool.split sep e = [e].
Proof.
  induction e as [|c e IH]; [reflexivity|].
  simpl. intros H. apply orb_false_iff in H as [H1 H2].
  rewrite H1, IH by exact H2. reflexivity.
Qed.

(** X11. Without an explicit MIME type (absent or empty), the upload_file
    tool looks up the text after the path's last ["."], lower-cased, so the
    lookup ignores case ([REPORT.PDF] is [application/pdf]); an explicit
    non-empty MIME type is used as given. *)
Theorem detected_mimeType_extension (stem ext : string) :
  has_char "." ext = false ->
  UploadFileTool.detected_mimeType None (stem ++ "." ++ ext)
    = UploadFileTool.getMimeTypeFromExtension (UploadFileTool.toLowerCase ext) /\
  UploadFileTool.detected_mimeType (Some "") (stem ++ "." ++ ext)
    = UploadFileTool.getMimeTypeFromExtension (UploadFileTool.toLowerCase ext) /\
  (forall m p, m <> "" -> UploadFileTool.detected_mimeType (Some m) p = UploadFileTool.PString m).
Proof.
  intros Hext.
  assert (Hpop : UploadFileTool.pop (UploadFileTool.split "." (stem ++ "." ++ ext)) = Some ext).
  { change ("." ++ ext)%string with (String "." ext).
    rewrite UploadFileToolFacts.pop_split_ext.
    - simpl. rewrite split_no_sep by exact Hext. reflexivity.
    - simpl. rewrite split_no_sep by exact Hext. simpl. lia. }
  split; [|split].
  - unfold UploadFileTool.detected_mimeType. simpl truthy_string. cbv iota beta.
    rewrite Hpop. reflexivity.
  - unfold UploadFileTool.detected_mimeType. simpl truthy_string. cbv iota beta.
    rewrite Hpop. reflexivity.
  - intros m p Hm. unfold UploadFileTool.detected_mimeType, truthy_string.
    destruct (String.eqb m "") eqn:E; [apply String.eqb_eq in E; contradiction|].
    reflexivity.
Qed.

Lemma detected_mimeType_extension_witness :
  UploadFileTool.detected_mimeType None ("/tmp/REPORT" ++ "." ++ "PDF")
    = UploadFileTool.PString "application/pdf".
Proof.
  rewrite (proj1 (detected_mimeType_extension "/tmp/REPORT" "PDF" eq_refl)).
  reflexivity.
Defined.

Lemma split_app_sep sep a b :
  UploadFileTool.split sep (a ++ String sep b) = UploadFileTool.split sep a ++ UploadFileTool.split sep b.
Proof.
  induction a as [|c a IH].
  - simpl. rewrite Ascii.eqb_refl. reflexivity.
  - cbn [append UploadFileTool.split]. rewrite IH.
    destruct (Ascii.eqb c sep); [reflexivity|].
    destruct (UploadFileTool.split sep a) as [|q qs] eqn:E;
      [exfalso; exact (UploadFileToolFacts.split_not_nil sep a E) | reflexivity].
Qed.

Lemma last_nonempty_app l1 l2 :
  last_nonempty (l1 ++ l2)
  = match last_nonempty l2 with EmptyString => last_nonempty l1 | y => y end.
Proof.
  induction l1 as [|x l1 IH]; simpl.
  - destruct (last_nonempty l2); reflexivity.
  - rewrite IH. destruct (last_nonempty l2); reflexivity.
Qed.

(** X12. Without a display name, the upload_file tool names the document
    after the path's last segment: [dir/file] and [dir/file/] both give
    [file]. An explicit display name is kept as given, even the empty
    string (the default applies only to an absent one). *)
Theorem upload_file_displayName_basename (dir file : string) :
  has_char "/" file = false -> file <> "" ->
  upload_file_displayName None (dir ++ "/" ++ file) = file /\
  upload_file_displayName None (dir ++ "/" ++ file ++ "/") = file /\
  (forall p, upload_file_displayName (Some "") p = "").
Proof.
  intros Hf Hne. unfold upload_file_displayName, basename. cbn [coalesce].
  split; [|split; [|reflexivity]].
  - change ("/" ++ file)%string with (String "/" file).
    rewrite split_app_sep, last_nonempty_app, split_no_sep by exact Hf.
    simpl. destruct file; [contradiction | reflexivity].
  - change ("/" ++ file ++ "/")%string with (String "/" (file ++ String "/" "")).
    rewrite split_app_sep, split_app_sep, last_nonempty_app, last_nonempty_app,
      (split_no_sep "/" file Hf).
    simpl. destruct file; [contradiction | reflexivity].
Qed.

Lemma upload_file_displayName_basename_witness :
  upload_file_displayName None ("/home/user/docs" ++ "/" ++ "notes.md") = "notes.md".
Proof.
  apply (upload_file_displayName_basename "/home/user/docs" "notes.md" eq_refl). discriminate.
Defined.

Definition valid_log_levels : list string := ["error"; "warn"; "info"; "debug"].

Lemma existsb_eqb_In (x : string) l : existsb (String.eqb x) l = true <-> In x l.
Proof.
  rewrite existsb_exists. split.
  - intros [y [Hy Hxy]]. apply String.eqb_eq in Hxy. now subst.
  - intros H. exists x. split; [exact H | apply String.eqb_refl].
Qed.

(** X13. [validateConfig] accepts a configuration exactly when both MCP
    sizes are positive, the log level is one of error, warn, info or debug,
    and the API key and the store display name are non-empty; it never
    throws (a failed check answers [false]). *)
Theorem validateConfig_iff (config : ServerConfig) :
  validateConfig config = true <->
  (0 < maxResponseSize (mcp config))%Z /\ (0 < defaultPageSize (mcp config))%Z /\
  In (level (logging config)) valid_log_levels /\
  apiKey (gemini config) <> "" /\ gemini_storeDisplayName (gemini config) <> "".
Proof.
  unfold validateConfig, truthy_string.
  destruct (maxResponseSize (mcp config) <=? 0)%Z eqn:E1;
    [split; [discriminate | intros [H _]; apply Z.leb_le in E1; lia] |].
  destruct (defaultPageSize (mcp config) <=? 0)%Z eqn:E2;
    [split; [discriminate | intros [_ [H _]]; apply Z.leb_le in E2; lia] |].
  apply Z.leb_gt in E1, E2.
  destruct (existsb (String.eqb (level (logging config))) _) eqn:E3; cbn [negb].
  2: { split; [discriminate|]. intros [_ [_ [H _]]].
       apply (existsb_eqb_In _ valid_log_levels) in H. unfold valid_log_levels in H. congruence. }
  apply (existsb_eqb_In _ valid_log_levels) in E3.
  destruct (String.eqb (apiKey (gemini config)) "") eqn:E4; cbn [negb].
  { apply String.eqb_eq in E4. split; [discriminate | intros [_ [_ [_ [H _]]]]; contradiction]. }
  apply String.eqb_neq in E4.
  destruct (String.eqb (gemini_storeDisplayName (gemini config)) "") eqn:E5; cbn [negb].
  { apply String.eqb_eq in E5. split; [discriminate | intros [_ [_ [_ [_ H]]]]; contradiction]. }
  apply String.eqb_neq in E5.
  split; [intros _; auto 6 | reflexivity].
Qed.

(** X14. The configuration loaded from the environment is valid exactly
    when GOOGLE_API_KEY is set and non-empty, LOG_LEVEL is unset or one of
    the four levels (an empty one is refused), and STORE_DISPLAY_NAME is not
    set to the empty string (unset means ["default"]). *)
Theorem loadConfig_valid_iff (env : environment) :
  validateConfig (loadConfig env) = true <->
  (exists k, env "GOOGLE_API_KEY" = Some k /\ k <> "") /\
  (env "LOG_LEVEL" = None \/ exists l, env "LOG_LEVEL" = Some l /\ In l valid_log_levels) /\
  env "STORE_DISPLAY_NAME" <> Some "".
Proof.
  rewrite validateConfig_iff. unfold loadConfig, DEFAULT_CONFIG. cbn.
  split.
  - intros [_ [_ [Hl [Hk Hs]]]]. split; [|split].
    + destruct (env "GOOGLE_API_KEY") as [k|]; [now exists k | contradiction].
    + destruct (env "LOG_LEVEL") as [l|]; [right; now exists l | now left].
    + destruct (env "STORE_DISPLAY_NAME") as [d|]; [|discriminate].
      intros H. injection H as ->. contradiction.
  - intros [[k [Hk Hne]] [Hl Hs]]. split; [lia|]. split; [lia|].
    rewrite Hk. split; [|split; [exact Hne|]].
    + destruct Hl as [-> | [l [-> Hin]]]; [simpl; auto 6 | exact Hin].
    + destruct (env "STORE_DISPLAY_NAME") as [d|]; [|discriminate].
      simpl. intros H. subst d. contradiction.
Qed.

Definition sample_env : environment :=
  fun v => if String.eqb v "GOOGLE_API_KEY" then Some "key-123"
           else if String.eqb v "LOG_LEVEL" then Some "debug" else None.

Lemma loadConfig_valid_iff_witness : validateConfig (loadConfig sample_env) = true.
Proof.
  apply (proj2 (loadConfig_valid_iff sample_env)). split; [|split].
  - exists "key-123". split; [reflexivity | discriminate].
  - right. exists "debug". split; [reflexivity | simpl; auto 6].
  - discriminate.
Defined.

(** X15. After [initialize], the registry holds exactly four tools, and
    [getToolByName] finds a tool exactly under its own name:
    ensure_store, list_stores, upload_file and query_store; any other name,
    [upload_content] or [query] included, finds nothing. *)
Theorem registry_lookup (n : string) (t : Tool) :
  length (initialize []) = 4%nat /\
  (getToolByName (initialize []) n = Some t <-> tool_name t = n) /\
  (getToolByName (initialize []) n = None <->
   ~ In n ["ensure_store"; "list_stores"; "upload_file"; "query_store"]).
Proof.
  assert (Hinit : initialize [] = [("ensure_store", EnsureStoreTool); ("list_stores", ListStoresTool);
                                   ("upload_file", UploadFileTool'); ("query_store", QueryStoreTool)])
    by reflexivity.
  rewrite Hinit. split; [reflexivity|]. unfold getToolByName. cbn [map_get].
  destruct (String.eqb n "ensure_store") eqn:E1;
    [apply String.eqb_eq in E1; subst; split;
     [split; [intros H; injection H as <-; reflexivity | destruct t; simpl; discriminate || (intros; reflexivity)]
     | split; [discriminate | intros H; exfalso; apply H; now left]] |].
  destruct (String.eqb n "list_stores") eqn:E2;
    [apply String.eqb_eq in E2; subst; split;
     [split; [intros H; injection H as <-; reflexivity | destruct t; simpl; discriminate || (intros; reflexivity)]
     | split; [discriminate | intros H; exfalso; apply H; simpl; auto]] |].
  destruct (String.eqb n "upload_file") eqn:E3;
    [apply String.eqb_eq in E3; subst; split;
     [split; [intros H; injection H as <-; reflexivity | destruct t; simpl; discriminate || (intros; reflexivity)]
     | split; [discriminate | intros H; exfalso; apply H; simpl; auto]] |].
  destruct (String.eqb n "query_store") eqn:E4;
    [apply String.eqb_eq in E4; subst; split;
     [split; [intros H; injection H as <-; reflexivity | destruct t; simpl; discriminate || (intros; reflexivity)]
     | split; [discriminate | intros H; exfalso; apply H; simpl; auto]] |].
  apply String.eqb_neq in E1, E2, E3, E4.
  split.
  - split; [discriminate|]. intros H. destruct t; simpl in H; subst; congruence.
  - split; [intros _ [H|[H|[H|[H|[]]]]]; subst; congruence | reflexivity].
Qed.

End ExtraFacts.
